(** * isoflow: the pointer-input hook [useMouseInput]

    A shallow embedding of [src/hooks/useMouseInput.ts]: the offset
    resolver [getOffset], the coordinate mapper [mouseEventToCoords], the
    sample builder [parseMousePosition], and the effect of the hook, which
    attaches five native listeners to a DOM element and keeps the last
    pointer position between events.

    Numbers.  A JavaScript [number] is modelled as an exact rational
    ([Q]): [+] and [-] are exact, [Math.round] is [floor (n + 1/2)], and a
    number is falsy exactly when it is zero.  [NaN], the infinities and
    binary rounding are outside the model. *)

From Stdlib Require Import QArith Qround Qabs ZArith Lia Lqa String List Bool.
From stdpp Require Import base list strings.

Open Scope Q_scope.

(** ** Numbers *)

Abbreviation number := Q.

(** [!!n] of JavaScript for a number. *)
Definition truthy (n : number) : bool := negb (Qeq_bool n 0).

(** [a || b]: the left operand when it is truthy, the right one otherwise. *)
Definition jsor (a b : number) : number := if truthy a then a else b.

Declare Scope js_scope.
Delimit Scope js_scope with js.
Infix "||" := jsor (at level 50, left associativity) : js_scope.

(** [Math.round]: the nearest integer, a half rounding towards +infinity. *)
Definition Math_round (n : number) : number := inject_Z (Qfloor (n + (1 # 2))).

(** ** Data *)

Record MouseCoords := { x : number; y : number }.

Record MousePosition := { position : MouseCoords; delta : option MouseCoords }.

(** The fields of a native [MouseEvent] the hook reads. *)
Record MouseEvent := { clientX : number; clientY : number }.

(** The fields of a [DOMRect] the hook reads. *)
Module DOMRect.
Record t := { top : number; left : number }.
End DOMRect.

(** The object [getOffset] returns. *)
Module Offset.
Record t := { top : number; left : number }.
End Offset.

(** A DOM element is known by its identity. *)
Definition HTMLElement := nat.

(** The properties of [window] that are read. *)
Record Window :=
  { pageXOffset : number; pageYOffset : number; scrollX : number; scrollY : number }.

(** The properties of [document.documentElement] and [document.body] that
    are read. *)
Record RootElement :=
  { scrollTop : number; scrollLeft : number; clientTop : number; clientLeft : number }.

(** What the hook can observe of the page at one instant. *)
Record Page :=
  { window : Window;
    documentElement : RootElement;
    body : RootElement;
    getBoundingClientRect : HTMLElement -> DOMRect.t }.

(** ** The offset resolver, lines 23-45 *)

Definition getOffset (domEl : option HTMLElement) (page : Page) : Offset.t :=
  match domEl with
  | None => {| Offset.top := 0; Offset.left := 0 |}
  | Some domEl =>
      let box := getBoundingClientRect page domEl in
      let body := body page in
      let docEl := documentElement page in
      let scrollTop := (pageYOffset (window page) || scrollTop docEl || scrollTop body)%js in
      let scrollLeft := (pageXOffset (window page) || scrollLeft docEl || scrollLeft body)%js in
      let clientTop := (clientTop docEl || clientTop body || 0)%js in
      let clientLeft := (clientLeft docEl || clientLeft body || 0)%js in
      let top := DOMRect.top box + scrollTop - clientTop in
      let left := DOMRect.left box + scrollLeft - clientLeft in
      {| Offset.top := Math_round top; Offset.left := Math_round left |}
  end.

(** ** The coordinate mapper, lines 51-61 *)

Definition mouseEventToCoords (domEl : option HTMLElement) (page : Page)
    (e : MouseEvent) : MouseCoords :=
  let offset := getOffset domEl page in
  {| x := clientX e - Offset.left offset + scrollX (window page);
     y := clientY e - Offset.top offset + scrollY (window page) |}.

(** ** The sample builder, lines 63-79 *)

Definition parseMousePosition (domEl : option HTMLElement) (page : Page)
    (e : MouseEvent) (mousedown : option MouseCoords) : MousePosition :=
  let current := mouseEventToCoords domEl page e in
  let delta :=
    match mousedown with
    | Some mousedown =>
        Some {| x := x current - x mousedown; y := y current - y mousedown |}
    | None => None
    end in
  {| position := {| x := x current; y := y current |}; delta := delta |}.

(** ** The hook and its surroundings

    The hook runs inside React and the DOM.  The model keeps what the
    hook's code can tell apart:
    - the two [useState] cells [domEl] and [callbacks];
    - the clean-up function returned by the last run of the effect;
    - one [lastPosition] variable per run of the effect (line 84);
    - the listeners registered on DOM elements, in registration order;
    - the page and the state of the application that owns the callbacks.

    React is modelled as far as the hook depends on it: a state setter
    called with a value that is [Object.is]-equal to the current one does
    nothing; any other value re-renders, and since the dependency list
    [callbacks, domEl] changed, the previous clean-up runs and then the
    effect.  The update, the render and the effect are one step. *)

(** The five members of [MouseEvents]; the five listener functions the
    effect declares carry the same names. *)
Inductive Key := OnMouseMove | OnMouseDown | OnMouseUp | OnMouseEnter | OnMouseLeave.

(** One invocation of a callback, as the application observes it. *)
Record Call := { callee_ref : nat; callee : Key; argument : MousePosition }.

Definition Key_eqb (a b : Key) : bool :=
  match a, b with
  | OnMouseMove, OnMouseMove | OnMouseDown, OnMouseDown | OnMouseUp, OnMouseUp
  | OnMouseEnter, OnMouseEnter | OnMouseLeave, OnMouseLeave => true
  | _, _ => false
  end.

Section Model.

(** The state of the application: whatever the callbacks close over. *)
Context {A : Type}.

(** All that a callback can read and change. *)
Record World := { page : Page; app : A }.

(** [type _MouseEvent = (e: MousePosition) => void], line 13. *)
Definition _MouseEvent := MousePosition -> World -> World.

(** [interface MouseEvents], lines 15-21; [ref] is the identity of the
    object, which is what React compares. *)
Record MouseEvents :=
  { ref : nat;
    onMouseMove : _MouseEvent;
    onMouseDown : _MouseEvent;
    onMouseUp : _MouseEvent;
    onMouseEnter : _MouseEvent;
    onMouseLeave : _MouseEvent }.

Definition member (k : Key) (callbacks : MouseEvents) : _MouseEvent :=
  match k with
  | OnMouseMove => onMouseMove callbacks
  | OnMouseDown => onMouseDown callbacks
  | OnMouseUp => onMouseUp callbacks
  | OnMouseEnter => onMouseEnter callbacks
  | OnMouseLeave => onMouseLeave callbacks
  end.

(** What one run of the effect closes over: the element and the callback
    set of that render, and its own [lastPosition] variable, which lives
    at index [sid] of the store [cells]. *)
Record Scope := { sid : nat; scope_domEl : HTMLElement; scope_callbacks : MouseEvents }.

(** An entry of an element's listener list: the function is the listener
    [fn] declared by the run [scope] of the effect. *)
Record Listener := { target : HTMLElement; type : string; scope : Scope; fn : Key }.

Record Hook :=
  { mounted : bool;
    domEl : option HTMLElement;
    callbacks : option MouseEvents;
    cleanup : option Scope;
    cells : list (option MouseCoords);
    listeners : list Listener;
    world : World;
    calls : list Call }.

Definition with_domEl (v : option HTMLElement) (st : Hook) : Hook :=
  {| mounted := mounted st; domEl := v; callbacks := callbacks st; cleanup := cleanup st;
     cells := cells st; listeners := listeners st; world := world st; calls := calls st |}.

Definition with_callbacks (v : option MouseEvents) (st : Hook) : Hook :=
  {| mounted := mounted st; domEl := domEl st; callbacks := v; cleanup := cleanup st;
     cells := cells st; listeners := listeners st; world := world st; calls := calls st |}.

Definition with_cleanup (v : option Scope) (st : Hook) : Hook :=
  {| mounted := mounted st; domEl := domEl st; callbacks := callbacks st; cleanup := v;
     cells := cells st; listeners := listeners st; world := world st; calls := calls st |}.

Definition with_cells (v : list (option MouseCoords)) (st : Hook) : Hook :=
  {| mounted := mounted st; domEl := domEl st; callbacks := callbacks st; cleanup := cleanup st;
     cells := v; listeners := listeners st; world := world st; calls := calls st |}.

Definition with_listeners (v : list Listener) (st : Hook) : Hook :=
  {| mounted := mounted st; domEl := domEl st; callbacks := callbacks st; cleanup := cleanup st;
     cells := cells st; listeners := v; world := world st; calls := calls st |}.

Definition with_world (v : World) (st : Hook) : Hook :=
  {| mounted := mounted st; domEl := domEl st; callbacks := callbacks st; cleanup := cleanup st;
     cells := cells st; listeners := listeners st; world := v; calls := calls st |}.

Definition with_calls (v : list Call) (st : Hook) : Hook :=
  {| mounted := mounted st; domEl := domEl st; callbacks := callbacks st; cleanup := cleanup st;
     cells := cells st; listeners := listeners st; world := world st; calls := v |}.

Definition with_mounted (v : bool) (st : Hook) : Hook :=
  {| mounted := v; domEl := domEl st; callbacks := callbacks st; cleanup := cleanup st;
     cells := cells st; listeners := listeners st; world := world st; calls := calls st |}.

(** ** The listeners of the effect, lines 84-109 *)

(** [callbacks.k(arg)]: the callback runs on the world, and the call is
    recorded. *)
Definition invoke (callbacks : MouseEvents) (k : Key) (arg : MousePosition) (st : Hook) : Hook :=
  with_calls (calls st ++ [ {| callee_ref := ref callbacks; callee := k; argument := arg |} ])
    (with_world (member k callbacks arg (world st)) st).

(** Reading and writing the [lastPosition] of a run of the effect. *)
Definition lastPosition (s : Scope) (st : Hook) : option MouseCoords :=
  default None (cells st !! sid s).

Definition set_lastPosition (s : Scope) (v : option MouseCoords) (st : Hook) : Hook :=
  with_cells (<[sid s := v]> (cells st)) st.

Definition listener_onMouseDown (s : Scope) (e : MouseEvent) (st : Hook) : Hook :=
  let st := invoke (scope_callbacks s) OnMouseDown
              (parseMousePosition (Some (scope_domEl s)) (page (world st)) e (lastPosition s st)) st in
  set_lastPosition s (Some (mouseEventToCoords (Some (scope_domEl s)) (page (world st)) e)) st.

Definition listener_onMouseUp (s : Scope) (e : MouseEvent) (st : Hook) : Hook :=
  let st := invoke (scope_callbacks s) OnMouseUp
              (parseMousePosition (Some (scope_domEl s)) (page (world st)) e (lastPosition s st)) st in
  set_lastPosition s (Some (mouseEventToCoords (Some (scope_domEl s)) (page (world st)) e)) st.

Definition listener_onMouseMove (s : Scope) (e : MouseEvent) (st : Hook) : Hook :=
  let st := invoke (scope_callbacks s) OnMouseMove
              (parseMousePosition (Some (scope_domEl s)) (page (world st)) e (lastPosition s st)) st in
  set_lastPosition s (Some (mouseEventToCoords (Some (scope_domEl s)) (page (world st)) e)) st.

Definition listener_onMouseEnter (s : Scope) (e : MouseEvent) (st : Hook) : Hook :=
  let st := invoke (scope_callbacks s) OnMouseEnter
              (parseMousePosition (Some (scope_domEl s)) (page (world st)) e (lastPosition s st)) st in
  set_lastPosition s (Some (mouseEventToCoords (Some (scope_domEl s)) (page (world st)) e)) st.

Definition listener_onMouseLeave (s : Scope) (e : MouseEvent) (st : Hook) : Hook :=
  let st := invoke (scope_callbacks s) OnMouseLeave
              (parseMousePosition (Some (scope_domEl s)) (page (world st)) e (lastPosition s st)) st in
  set_lastPosition s (Some (mouseEventToCoords (Some (scope_domEl s)) (page (world st)) e)) st.

(** Running the function a listener entry refers to. *)
Definition run_listener (l : Listener) (e : MouseEvent) (st : Hook) : Hook :=
  match fn l with
  | OnMouseMove => listener_onMouseMove (scope l) e st
  | OnMouseDown => listener_onMouseDown (scope l) e st
  | OnMouseUp => listener_onMouseUp (scope l) e st
  | OnMouseEnter => listener_onMouseEnter (scope l) e st
  | OnMouseLeave => listener_onMouseLeave (scope l) e st
  end.

(** ** The DOM: listener lists *)

(** Two entries are the same listener when they are on the same element,
    for the same type, and hold the same function. *)
Definition same_listener (a b : Listener) : bool :=
  String.eqb (type a) (type b) && Key_eqb (fn a) (fn b)
  && Nat.eqb (target a) (target b) && Nat.eqb (sid (scope a)) (sid (scope b)).

(** [target.addEventListener(type, fn)]: appended, unless already there. *)
Definition addEventListener (target : HTMLElement) (type : string) (s : Scope) (fn : Key)
    (st : Hook) : Hook :=
  let l := {| target := target; type := type; scope := s; fn := fn |} in
  if existsb (same_listener l) (listeners st) then st
  else with_listeners (listeners st ++ [l]) st.

(** [target.removeEventListener(type, fn)]. *)
Definition removeEventListener (target : HTMLElement) (type : string) (s : Scope) (fn : Key)
    (st : Hook) : Hook :=
  let l := {| target := target; type := type; scope := s; fn := fn |} in
  with_listeners (List.filter (fun l' => negb (same_listener l l')) (listeners st)) st.

Definition listens (el : HTMLElement) (ty : string) (l : Listener) : bool :=
  Nat.eqb (target l) el && String.eqb (type l) ty.

(** The browser delivers an event of type [ty] to the listeners of [el]:
    each registered listener for that type runs, in registration order. *)
Definition dispatchEvent (el : HTMLElement) (ty : string) (e : MouseEvent) (st : Hook) : Hook :=
  fold_left (fun st l => run_listener l e st) (List.filter (listens el ty) (listeners st)) st.

(** ** The effect, lines 81-124 *)

(** The body of the effect.  With both cells set it declares a fresh
    [lastPosition], registers the five listeners and returns the clean-up
    (represented by the scope it closes over); otherwise it returns
    nothing. *)
Definition effect (st : Hook) : Hook :=
  match callbacks st, domEl st with
  | Some callbacks, Some domEl =>
      let s := {| sid := length (cells st); scope_domEl := domEl; scope_callbacks := callbacks |} in
      let st := with_cells (cells st ++ [None]) st in
      let st := addEventListener domEl "mousemove" s OnMouseMove st in
      let st := addEventListener domEl "mousedown" s OnMouseDown st in
      let st := addEventListener domEl "mouseup" s OnMouseUp st in
      let st := addEventListener domEl "mouseenter" s OnMouseEnter st in
      let st := addEventListener domEl "mouseleave" s OnMouseLeave st in
      with_cleanup (Some s) st
  | _, _ => with_cleanup None st
  end.

(** The function the effect returned, lines 117-123, when there is one. *)
Definition run_cleanup (st : Hook) : Hook :=
  match cleanup st with
  | Some s =>
      let domEl := scope_domEl s in
      let st := removeEventListener domEl "mousemove" s OnMouseMove st in
      let st := removeEventListener domEl "mousedown" s OnMouseDown st in
      let st := removeEventListener domEl "mouseup" s OnMouseUp st in
      let st := removeEventListener domEl "mouseenter" s OnMouseEnter st in
      let st := removeEventListener domEl "mouseleave" s OnMouseLeave st in
      with_cleanup None st
  | None => st
  end.

(** ** React *)

(** [Object.is] on the values of the two state cells. *)
Definition same_domEl (a b : option HTMLElement) : bool :=
  match a, b with
  | Some a, Some b => Nat.eqb a b
  | None, None => true
  | _, _ => false
  end.

Definition same_callbacks (a b : option MouseEvents) : bool :=
  match a, b with
  | Some a, Some b => Nat.eqb (ref a) (ref b)
  | None, None => true
  | _, _ => false
  end.

(** A dependency changed: the previous clean-up, then the effect. *)
Definition commit (st : Hook) : Hook := effect (run_cleanup st).

(** The first render: both cells are [undefined], and the effect runs. *)
Definition mount (w : World) : Hook :=
  effect {| mounted := true; domEl := None; callbacks := None; cleanup := None;
            cells := []; listeners := []; world := w; calls := [] |}.

Definition setDomEl (v : option HTMLElement) (st : Hook) : Hook :=
  if mounted st then
    if same_domEl (domEl st) v then st else commit (with_domEl v st)
  else st.

Definition setCallbacks (v : option MouseEvents) (st : Hook) : Hook :=
  if mounted st then
    if same_callbacks (callbacks st) v then st else commit (with_callbacks v st)
  else st.

Definition unmount (st : Hook) : Hook :=
  if mounted st then with_mounted false (run_cleanup st) else st.

(** ** Runs *)

(** What can happen to a mounted hook: the caller uses a setter, React
    unmounts the component, the browser delivers a native event to an
    element, or something outside the hook (the user scrolling, the
    application) changes the world between two events. *)
Inductive Action :=
  | SetDomEl (v : option HTMLElement)
  | SetCallbacks (v : option MouseEvents)
  | Unmount
  | Native (el : HTMLElement) (ty : string) (e : MouseEvent)
  | Outside (f : World -> World).

Definition step (a : Action) (st : Hook) : Hook :=
  match a with
  | SetDomEl v => setDomEl v st
  | SetCallbacks v => setCallbacks v st
  | Unmount => unmount st
  | Native el ty e => dispatchEvent el ty e st
  | Outside f => with_world (f (world st)) st
  end.

Definition run (acts : list Action) (st : Hook) : Hook :=
  fold_left (fun st a => step a st) acts st.

(** ** Vocabulary of the properties *)

(** The registrations of lines 111-115, read as a table from event type
    to listener. *)
Definition key_of_type (ty : string) : option Key :=
  if String.eqb ty "mousemove" then Some OnMouseMove
  else if String.eqb ty "mousedown" then Some OnMouseDown
  else if String.eqb ty "mouseup" then Some OnMouseUp
  else if String.eqb ty "mouseenter" then Some OnMouseEnter
  else if String.eqb ty "mouseleave" then Some OnMouseLeave
  else None.

(** The five entries a run of the effect registers, in order. *)
Definition listeners_of (s : Scope) : list Listener :=
  [ {| target := scope_domEl s; type := "mousemove"; scope := s; fn := OnMouseMove |};
    {| target := scope_domEl s; type := "mousedown"; scope := s; fn := OnMouseDown |};
    {| target := scope_domEl s; type := "mouseup"; scope := s; fn := OnMouseUp |};
    {| target := scope_domEl s; type := "mouseenter"; scope := s; fn := OnMouseEnter |};
    {| target := scope_domEl s; type := "mouseleave"; scope := s; fn := OnMouseLeave |} ].

(** The tracker is Bound to [el] and [cbs], or Unbound. *)
Definition Bound (st : Hook) (el : HTMLElement) (cbs : MouseEvents) : Prop :=
  mounted st = true /\ domEl st = Some el /\ callbacks st = Some cbs.

Definition Unbound (st : Hook) : Prop := domEl st = None \/ callbacks st = None.

(** The states a mounted hook can be in. *)
Definition reachable (st : Hook) : Prop := exists w acts, st = run acts (mount w).

(** The invariant of the reachable states: the listener lists hold the
    five listeners of the pending clean-up and nothing else. *)
Definition wf (st : Hook) : Prop :=
  match cleanup st with
  | Some s =>
      mounted st = true /\ domEl st = Some (scope_domEl s)
      /\ callbacks st = Some (scope_callbacks s)
      /\ listeners st = listeners_of s /\ (sid s < length (cells st))%nat
  | None =>
      listeners st = [] /\ (mounted st = false \/ domEl st = None \/ callbacks st = None)
  end.

(** The action creates or replaces the binding: a setter, on a mounted
    hook, with a value that differs from the current one. *)
Definition rebinds (a : Action) (st : Hook) : bool :=
  match a with
  | SetDomEl v => mounted st && negb (same_domEl (domEl st) v)
  | SetCallbacks v => mounted st && negb (same_callbacks (callbacks st) v)
  | _ => false
  end.

Definition is_unmount (a : Action) : bool :=
  match a with Unmount => true | _ => false end.

(** A run during which the binding stays as it is. *)
Fixpoint steady (acts : list Action) (st : Hook) : bool :=
  match acts with
  | [] => true
  | a :: acts => negb (rebinds a st) && negb (is_unmount a) && steady acts (step a st)
  end.

(** [a - b] on coordinates. *)
Definition minus (a b : MouseCoords) : MouseCoords :=
  {| x := x a - x b; y := y a - y b |}.

(** The deltas of consecutive calls: each is the position of the call
    minus the position of the call before it, and absent after [None]. *)
Fixpoint chained (prev : option MouseCoords) (cs : list Call) : Prop :=
  match cs with
  | [] => True
  | c :: cs =>
      delta (argument c) = option_map (minus (position (argument c))) prev
      /\ chained (Some (position (argument c))) cs
  end.

Definition first_delta_absent (cs : list Call) : Prop :=
  match cs with
  | [] => True
  | c :: _ => delta (argument c) = None
  end.

(** The callbacks leave the page as it is: no scrolling, no layout change. *)
Definition inert (cbs : MouseEvents) : Prop :=
  forall k arg w, page (member k cbs arg w) = page w.

(** The shape the five listeners share: build the sample from the page
    and [lastPosition], call member [k] of the callbacks, then store what
    the mapper returns on the page the callback left behind. *)
Definition deliver (s : Scope) (k : Key) (e : MouseEvent) (st : Hook) : Hook :=
  let st := invoke (scope_callbacks s) k
              (parseMousePosition (Some (scope_domEl s)) (page (world st)) e (lastPosition s st)) st in
  set_lastPosition s (Some (mouseEventToCoords (Some (scope_domEl s)) (page (world st)) e)) st.

(** The state a setter leaves for the render that follows. *)
Definition assign (a : Action) (st : Hook) : Hook :=
  match a with
  | SetDomEl v => with_domEl v st
  | SetCallbacks v => with_callbacks v st
  | _ => st
  end.

(** After the event the session state of the binding in force is the
    position that was handed to the callback. *)
Definition stores_delivered_position (st : Hook) (el : HTMLElement) (ty : string)
    (e : MouseEvent) : Prop :=
  forall s, cleanup st = Some s ->
    lastPosition s (step (Native el ty e) st)
    = Some (position (parseMousePosition (Some el) (page (world st)) e (lastPosition s st))).

(** The premise of the scenarios: the element resolves to the given
    offset and the window is not scrolled. *)
Definition resolves_to (left top : number) (el : HTMLElement) (p : Page) : Prop :=
  getOffset (Some el) p = {| Offset.top := top; Offset.left := left |}
  /\ scrollX (window p) = 0 /\ scrollY (window p) = 0.

End Model.

Arguments World A : clear implicits.
Arguments MouseEvents A : clear implicits.
Arguments Hook A : clear implicits.
Arguments Action A : clear implicits.
Arguments Scope A : clear implicits.
Arguments Listener A : clear implicits.

(** [r] is an integer nearest to [q]. *)
Definition nearest_integer (r q : number) : Prop :=
  exists k : Z, r = inject_Z k /\ Qabs (q - r) <= 1 # 2.

(** ** Concrete pages and callback sets, for the scenarios *)

Definition still : RootElement :=
  {| scrollTop := 0; scrollLeft := 0; clientTop := 0; clientLeft := 0 |}.

(** An unscrolled page on which every element has its box at viewport
    (left 50, top 100). *)
Definition page_50_100 : Page :=
  {| window := {| pageXOffset := 0; pageYOffset := 0; scrollX := 0; scrollY := 0 |};
     documentElement := still;
     body := still;
     getBoundingClientRect := fun _ => {| DOMRect.top := 100; DOMRect.left := 50 |} |}.

(** [window.scrollBy(dx, dy)] as the hook sees it: the window and the root
    element report the new scroll position, and every box moves the other
    way in the viewport. *)
Definition scrollBy (dx dy : number) (p : Page) : Page :=
  {| window := {| pageXOffset := pageXOffset (window p) + dx;
                  pageYOffset := pageYOffset (window p) + dy;
                  scrollX := scrollX (window p) + dx;
                  scrollY := scrollY (window p) + dy |};
     documentElement := {| scrollTop := scrollTop (documentElement p) + dy;
                           scrollLeft := scrollLeft (documentElement p) + dx;
                           clientTop := clientTop (documentElement p);
                           clientLeft := clientLeft (documentElement p) |};
     body := body p;
     getBoundingClientRect := fun el =>
       {| DOMRect.top := DOMRect.top (getBoundingClientRect p el) - dy;
          DOMRect.left := DOMRect.left (getBoundingClientRect p el) - dx |} |}.

(** Callbacks that do nothing. *)
Definition idle (r : nat) : MouseEvents unit :=
  {| ref := r;
     onMouseMove := fun _ w => w; onMouseDown := fun _ w => w; onMouseUp := fun _ w => w;
     onMouseEnter := fun _ w => w; onMouseLeave := fun _ w => w |}.

(** Callbacks whose [onMouseMove] scrolls the window 5 pixels to the right. *)
Definition scrolling (r : nat) : MouseEvents unit :=
  {| ref := r;
     onMouseMove := fun _ w => {| page := scrollBy 5 0 (page w); app := app w |};
     onMouseDown := fun _ w => w; onMouseUp := fun _ w => w;
     onMouseEnter := fun _ w => w; onMouseLeave := fun _ w => w |}.

Definition world_50_100 : World unit := {| page := page_50_100; app := tt |}.

Definition at_ (cx cy : number) : MouseEvent := {| clientX := cx; clientY := cy |}.

(** A hook on the page above, first given element 7, then a callback set. *)
Definition element_given : Hook unit := run [SetDomEl (Some 7%nat)] (mount world_50_100).

Definition bound_idle : Hook unit := step (SetCallbacks (Some (idle 1))) element_given.

Definition bound_scrolling : Hook unit := step (SetCallbacks (Some (scrolling 1))) element_given.

(** Two pointer moves over element 7, at viewport (60, 110) and (70, 110). *)
Definition two_moves : list (Action unit) :=
  [ Native 7%nat "mousemove" (at_ 60 110); Native 7%nat "mousemove" (at_ 70 110) ].

(** A page that is not scrolled at window level while [document.body]
    reports a scroll of 40: the body is the scrolling box. *)
Definition page_body_scrolled : Page :=
  {| window := {| pageXOffset := 0; pageYOffset := 0; scrollX := 0; scrollY := 0 |};
     documentElement := still;
     body := {| scrollTop := 40; scrollLeft := 0; clientTop := 0; clientLeft := 0 |};
     getBoundingClientRect := fun _ => {| DOMRect.top := 100; DOMRect.left := 50 |} |}.

(** ** Vocabulary of the further properties *)

(** A page in standards mode: the root element reports the scroll
    position of the window, and the body is not a scrolling box. *)
Definition standards_mode (p : Page) : Prop :=
  scrollTop (documentElement p) == pageYOffset (window p)
  /\ scrollLeft (documentElement p) == pageXOffset (window p)
  /\ scrollTop (body p) == 0
  /\ scrollLeft (body p) == 0.



(** The root element and the body have the same client edges on both pages. *)
Definition same_client_edge (p p' : Page) : Prop :=
  clientTop (documentElement p') = clientTop (documentElement p)
  /\ clientLeft (documentElement p') = clientLeft (documentElement p)
  /\ clientTop (body p') = clientTop (body p)
  /\ clientLeft (body p') = clientLeft (body p).





(** * Properties *)

(** ** Numbers *)

Lemma truthy_false (n : number) : truthy n = false <-> n == 0.
Proof.
  unfold truthy. rewrite negb_false_iff. apply Qeq_bool_iff.
Qed.

Lemma truthy_true (n : number) : truthy n = true <-> ~ n == 0.
Proof.
  rewrite <- truthy_false. destruct (truthy n); split; congruence.
Qed.

Lemma jsor_falsy (a b : number) : a == 0 -> jsor a b = b.
Proof.
  intros H. unfold jsor. apply truthy_false in H. now rewrite H.
Qed.

Lemma jsor_truthy (a b : number) : ~ a == 0 -> jsor a b = a.
Proof.
  intros H. unfold jsor. apply truthy_true in H. now rewrite H.
Qed.

Lemma jsor_chain (a b c : number) :
  jsor (jsor a b) c = if truthy a then a else if truthy b then b else c.
Proof.
  unfold jsor. destruct (truthy a) eqn:Ha.
  - now rewrite Ha.
  - destruct (truthy b) eqn:Hb; now rewrite ?Hb.
Qed.

Lemma Math_round_nearest (q : number) : nearest_integer (Math_round q) q.
Proof.
  exists (Qfloor (q + (1 # 2))). split; [reflexivity|].
  unfold Math_round.
  pose proof (Qfloor_le (q + (1 # 2))) as Hlo.
  pose proof (Qlt_floor (q + (1 # 2))) as Hhi.
  rewrite inject_Z_plus in Hhi. change (inject_Z 1) with 1 in Hhi.
  set (k := inject_Z (Qfloor (q + (1 # 2)))) in *.
  apply Qabs_Qle_condition. split; lra.
Qed.

(** ** The pure functions *)

(** C3.  The coordinate mapper returns, for every event and every element
    (bound or absent), x = clientX - offset.left + window.scrollX and
    y = clientY - offset.top + window.scrollY, the offset being the one
    [getOffset] resolves on the same page. *)
Theorem mouseEventToCoords_formula (domEl : option HTMLElement) (page : Page) (e : MouseEvent) :
  x (mouseEventToCoords domEl page e)
    = clientX e - Offset.left (getOffset domEl page) + scrollX (window page)
  /\ y (mouseEventToCoords domEl page e)
    = clientY e - Offset.top (getOffset domEl page) + scrollY (window page).
Proof.
  split; reflexivity.
Qed.

(** C4.  Without an element the offset resolver returns (top 0, left 0),
    whatever the page and its scroll state are. *)
Theorem getOffset_no_element (page : Page) :
  getOffset None page = {| Offset.top := 0; Offset.left := 0 |}.
Proof.
  reflexivity.
Qed.

(** C5.  With an element the offset resolver returns
    top = round (box.top + scroll top - client-edge top) and
    left = round (box.left + scroll left - client-edge left); the scroll
    offset is the window's when that is truthy, else the root element's
    when that is truthy, else the body's; the client edge is the root
    element's, else the body's, else 0; and each result is an integer
    nearest to the unrounded value. *)
Theorem getOffset_element (page : Page) (el : HTMLElement) :
  let box := getBoundingClientRect page el in
  let win := window page in
  let docEl := documentElement page in
  let bod := body page in
  let scroll_top :=
    if truthy (pageYOffset win) then pageYOffset win
    else if truthy (scrollTop docEl) then scrollTop docEl else scrollTop bod in
  let scroll_left :=
    if truthy (pageXOffset win) then pageXOffset win
    else if truthy (scrollLeft docEl) then scrollLeft docEl else scrollLeft bod in
  let client_top :=
    if truthy (clientTop docEl) then clientTop docEl
    else if truthy (clientTop bod) then clientTop bod else 0 in
  let client_left :=
    if truthy (clientLeft docEl) then clientLeft docEl
    else if truthy (clientLeft bod) then clientLeft bod else 0 in
  let r := getOffset (Some el) page in
  Offset.top r = Math_round (DOMRect.top box + scroll_top - client_top)
  /\ Offset.left r = Math_round (DOMRect.left box + scroll_left - client_left)
  /\ nearest_integer (Offset.top r) (DOMRect.top box + scroll_top - client_top)
  /\ nearest_integer (Offset.left r) (DOMRect.left box + scroll_left - client_left).
Proof.
  intros box win docEl bod scroll_top scroll_left client_top client_left r.
  assert (Ht : Offset.top r = Math_round (DOMRect.top box + scroll_top - client_top)).
  { subst r scroll_top client_top. cbn. now rewrite !jsor_chain. }
  assert (Hl : Offset.left r = Math_round (DOMRect.left box + scroll_left - client_left)).
  { subst r scroll_left client_left. cbn. now rewrite !jsor_chain. }
  repeat split; trivial.
  - rewrite Ht. apply Math_round_nearest.
  - rewrite Hl. apply Math_round_nearest.
Qed.

(** C10.  The fallbacks of the offset resolver go by truthiness.  A
    window scroll offset equal to 0 makes the resolver use the root
    element's value, and when that is 0 as well, the body's; the client
    edge is the root element's when nonzero, else the body's when nonzero,
    else 0.  There is a page whose window scroll is 0 and whose body
    reports a nonzero scroll, on which the resolver uses the body's value
    and so differs from the result with a scroll of 0. *)
Theorem getOffset_fallback_by_truthiness :
  (forall (page : Page) (el : HTMLElement),
     let box := getBoundingClientRect page el in
     let win := window page in
     let docEl := documentElement page in
     let bod := body page in
     let scroll_top := (pageYOffset win || scrollTop docEl || scrollTop bod)%js in
     let scroll_left := (pageXOffset win || scrollLeft docEl || scrollLeft bod)%js in
     let client_top := (clientTop docEl || clientTop bod || 0)%js in
     let client_left := (clientLeft docEl || clientLeft bod || 0)%js in
     let r := getOffset (Some el) page in
     (pageYOffset win == 0 -> ~ scrollTop docEl == 0 ->
        Offset.top r = Math_round (DOMRect.top box + scrollTop docEl - client_top))
     /\ (pageYOffset win == 0 -> scrollTop docEl == 0 ->
        Offset.top r = Math_round (DOMRect.top box + scrollTop bod - client_top))
     /\ (pageXOffset win == 0 -> ~ scrollLeft docEl == 0 ->
        Offset.left r = Math_round (DOMRect.left box + scrollLeft docEl - client_left))
     /\ (pageXOffset win == 0 -> scrollLeft docEl == 0 ->
        Offset.left r = Math_round (DOMRect.left box + scrollLeft bod - client_left))
     /\ (~ clientTop docEl == 0 ->
        Offset.top r = Math_round (DOMRect.top box + scroll_top - clientTop docEl))
     /\ (clientTop docEl == 0 -> ~ clientTop bod == 0 ->
        Offset.top r = Math_round (DOMRect.top box + scroll_top - clientTop bod))
     /\ (clientTop docEl == 0 -> clientTop bod == 0 ->
        Offset.top r = Math_round (DOMRect.top box + scroll_top - 0))
     /\ (~ clientLeft docEl == 0 ->
        Offset.left r = Math_round (DOMRect.left box + scroll_left - clientLeft docEl))
     /\ (clientLeft docEl == 0 -> ~ clientLeft bod == 0 ->
        Offset.left r = Math_round (DOMRect.left box + scroll_left - clientLeft bod))
     /\ (clientLeft docEl == 0 -> clientLeft bod == 0 ->
        Offset.left r = Math_round (DOMRect.left box + scroll_left - 0)))
  /\ (exists (page : Page) (el : HTMLElement),
        pageYOffset (window page) == 0
        /\ ~ scrollTop (body page) == 0
        /\ Offset.top (getOffset (Some el) page)
           = Math_round (DOMRect.top (getBoundingClientRect page el) + scrollTop (body page) - 0)
        /\ ~ Offset.top (getOffset (Some el) page)
             == Math_round (DOMRect.top (getBoundingClientRect page el) + 0 - 0)).
Proof.
  split.
  - intros page el box win docEl bod scroll_top scroll_left client_top client_left r.
    subst r scroll_top scroll_left client_top client_left. cbn.
    repeat split; intros;
      repeat (first [ rewrite (jsor_falsy (pageYOffset win)) by assumption
                    | rewrite (jsor_falsy (pageXOffset win)) by assumption
                    | rewrite (jsor_falsy (scrollTop docEl)) by assumption
                    | rewrite (jsor_falsy (scrollLeft docEl)) by assumption
                    | rewrite (jsor_truthy (scrollTop docEl)) by assumption
                    | rewrite (jsor_truthy (scrollLeft docEl)) by assumption
                    | rewrite (jsor_falsy (clientTop docEl)) by assumption
                    | rewrite (jsor_falsy (clientLeft docEl)) by assumption
                    | rewrite (jsor_truthy (clientTop docEl)) by assumption
                    | rewrite (jsor_truthy (clientLeft docEl)) by assumption
                    | rewrite (jsor_falsy (clientTop bod)) by assumption
                    | rewrite (jsor_falsy (clientLeft bod)) by assumption
                    | rewrite (jsor_truthy (clientTop bod)) by assumption
                    | rewrite (jsor_truthy (clientLeft bod)) by assumption ]);
      reflexivity.
  - exists page_body_scrolled, 0%nat. repeat split.
    + intros H. vm_compute in H. discriminate H.
    + intros H. vm_compute in H. discriminate H.
Qed.

(** ** The listeners and the DOM *)

Section Facts.

Context {A : Type}.

Implicit Types (st : Hook A) (s : Scope A) (cbs : MouseEvents A) (a : Action A).

Lemma delta_parseMousePosition (domEl : option HTMLElement) (p : Page) (e : MouseEvent)
    (prev : option MouseCoords) :
  delta (parseMousePosition domEl p e prev)
  = option_map (minus (position (parseMousePosition domEl p e prev))) prev.
Proof.
  destruct prev; reflexivity.
Qed.

Lemma position_parseMousePosition (domEl : option HTMLElement) (p : Page) (e : MouseEvent)
    (prev : option MouseCoords) :
  position (parseMousePosition domEl p e prev) = mouseEventToCoords domEl p e.
Proof.
  reflexivity.
Qed.

Lemma run_listener_deliver (l : Listener A) (e : MouseEvent) st :
  run_listener l e st = deliver (scope l) (fn l) e st.
Proof.
  unfold run_listener. destruct (fn l); reflexivity.
Qed.

Lemma filter_listeners_of s (el : HTMLElement) (ty : string) :
  List.filter (listens el ty) (listeners_of s)
  = if Nat.eqb (scope_domEl s) el then
      match key_of_type ty with
      | Some k => [ {| target := scope_domEl s; type := ty; scope := s; fn := k |} ]
      | None => []
      end
    else [].
Proof.
  unfold listeners_of, listens, key_of_type. cbn [List.filter target type].
  destruct (Nat.eqb (scope_domEl s) el); cbn [andb]; [|reflexivity].
  rewrite !(String.eqb_sym _ ty).
  destruct (String.eqb_spec ty "mousemove") as [->|_]; [reflexivity|].
  destruct (String.eqb_spec ty "mousedown") as [->|_]; [reflexivity|].
  destruct (String.eqb_spec ty "mouseup") as [->|_]; [reflexivity|].
  destruct (String.eqb_spec ty "mouseenter") as [->|_]; [reflexivity|].
  destruct (String.eqb_spec ty "mouseleave") as [->|_]; reflexivity.
Qed.

Lemma dispatchEvent_bound st s (el : HTMLElement) (ty : string) (e : MouseEvent) :
  listeners st = listeners_of s ->
  dispatchEvent el ty e st
  = if Nat.eqb (scope_domEl s) el then
      match key_of_type ty with
      | Some k => deliver s k e st
      | None => st
      end
    else st.
Proof.
  intros H. unfold dispatchEvent. rewrite H, filter_listeners_of.
  destruct (Nat.eqb (scope_domEl s) el); [|reflexivity].
  destruct (key_of_type ty); [|reflexivity].
  cbn [fold_left]. apply run_listener_deliver.
Qed.

Lemma dispatchEvent_no_listener st (el : HTMLElement) (ty : string) (e : MouseEvent) :
  listeners st = [] -> dispatchEvent el ty e st = st.
Proof.
  intros H. unfold dispatchEvent. now rewrite H.
Qed.

Lemma same_listener_of_scope s (ty1 ty2 : string) (k1 k2 : Key) :
  same_listener {| target := scope_domEl s; type := ty1; scope := s; fn := k1 |}
                {| target := scope_domEl s; type := ty2; scope := s; fn := k2 |}
  = String.eqb ty1 ty2 && Key_eqb k1 k2.
Proof.
  unfold same_listener. cbn [target type scope fn].
  now rewrite !Nat.eqb_refl, !andb_true_r.
Qed.

Lemma remove_from_entries s (ty : string) (k : Key) (tab : list (string * Key)) :
  List.filter
    (fun l' => negb (same_listener
                       {| target := scope_domEl s; type := ty; scope := s; fn := k |} l'))
    (map (fun p => {| target := scope_domEl s; type := fst p; scope := s; fn := snd p |}) tab)
  = map (fun p => {| target := scope_domEl s; type := fst p; scope := s; fn := snd p |})
      (List.filter (fun p => negb (String.eqb ty (fst p) && Key_eqb k (snd p))) tab).
Proof.
  induction tab as [|p tab IH]; [reflexivity|].
  cbn [map List.filter]. rewrite same_listener_of_scope, IH.
  now destruct (negb (String.eqb ty (fst p) && Key_eqb k (snd p))).
Qed.

Lemma run_cleanup_clears st :
  match cleanup st with
  | Some s => listeners st = listeners_of s
  | None => listeners st = []
  end ->
  run_cleanup st = with_cleanup None (with_listeners [] st).
Proof.
  destruct st as [m d c cl ce ls w cs]. unfold run_cleanup. cbn.
  destruct cl as [s|]; intros ->; [|reflexivity].
  unfold removeEventListener. cbv zeta.
  cbn [listeners with_listeners with_cleanup mounted domEl callbacks cleanup cells world calls].
  change (listeners_of s)
    with (map (fun p => {| target := scope_domEl s; type := fst p; scope := s; fn := snd p |})
            [ ("mousemove"%string, OnMouseMove); ("mousedown"%string, OnMouseDown);
              ("mouseup"%string, OnMouseUp); ("mouseenter"%string, OnMouseEnter);
              ("mouseleave"%string, OnMouseLeave) ]).
  rewrite !remove_from_entries. reflexivity.
Qed.

Lemma effect_registers st :
  listeners st = [] ->
  effect st
  = match callbacks st, domEl st with
    | Some cbs, Some el =>
        let s := {| sid := length (cells st); scope_domEl := el; scope_callbacks := cbs |} in
        with_cleanup (Some s)
          (with_listeners (listeners_of s) (with_cells (cells st ++ [None]) st))
    | _, _ => with_cleanup None st
    end.
Proof.
  destruct st as [m d c cl ce ls w cs]. cbn. intros ->.
  unfold effect. cbn. destruct c as [cbs|]; [|reflexivity].
  destruct d as [el|]; reflexivity.
Qed.

Lemma commit_registers st :
  match cleanup st with
  | Some s => listeners st = listeners_of s
  | None => listeners st = []
  end ->
  commit st
  = match callbacks st, domEl st with
    | Some cbs, Some el =>
        let s := {| sid := length (cells st); scope_domEl := el; scope_callbacks := cbs |} in
        with_cleanup (Some s)
          (with_listeners (listeners_of s) (with_cells (cells st ++ [None]) st))
    | _, _ => with_cleanup None (with_listeners [] st)
    end.
Proof.
  intros H. unfold commit. rewrite (run_cleanup_clears st H).
  rewrite effect_registers by reflexivity.
  destruct st as [m d c cl ce ls w cs]. cbn.
  destruct c as [cbs|]; [|reflexivity]. destruct d as [el|]; reflexivity.
Qed.

(** ** The invariant *)

Lemma wf_consistent st :
  wf st ->
  match cleanup st with
  | Some s => listeners st = listeners_of s
  | None => listeners st = []
  end.
Proof.
  unfold wf. destruct (cleanup st); tauto.
Qed.

Lemma wf_mount (w : World A) : wf (mount w).
Proof.
  unfold wf, mount. cbn. auto.
Qed.

Lemma wf_commit st :
  mounted st = true ->
  match cleanup st with
  | Some s => listeners st = listeners_of s
  | None => listeners st = []
  end ->
  wf (commit st).
Proof.
  intros Hm H. rewrite (commit_registers st H).
  destruct st as [m d c cl ce ls w cs]. cbn in *. unfold wf.
  destruct c as [cbs|]; [destruct d as [el|]|]; cbn; auto.
  repeat split; trivial. rewrite length_app. cbn. lia.
Qed.

Lemma wf_deliver st s (k : Key) (e : MouseEvent) :
  wf st -> wf (deliver s k e st).
Proof.
  unfold wf, deliver, set_lastPosition, invoke. cbn.
  destruct (cleanup st) as [s'|]; [|trivial].
  intros (Hm & Hd & Hc & Hl & Hn). repeat split; trivial.
  now rewrite length_insert.
Qed.

Lemma wf_step a st : wf st -> wf (step a st).
Proof.
  intros H. pose proof (wf_consistent st H) as Hc.
  destruct a as [v|v| |el ty e|f]; cbn [step].
  - unfold setDomEl. destruct (mounted st) eqn:Hm; [|assumption].
    destruct (same_domEl (domEl st) v); [assumption|].
    apply wf_commit; assumption.
  - unfold setCallbacks. destruct (mounted st) eqn:Hm; [|assumption].
    destruct (same_callbacks (callbacks st) v); [assumption|].
    apply wf_commit; assumption.
  - unfold unmount. destruct (mounted st) eqn:Hm; [|assumption].
    rewrite (run_cleanup_clears st Hc). unfold wf. cbn. auto.
  - destruct (cleanup st) as [s|] eqn:Hs.
    + rewrite (dispatchEvent_bound st s el ty e Hc).
      destruct (Nat.eqb (scope_domEl s) el); [|assumption].
      destruct (key_of_type ty); [|assumption].
      now apply wf_deliver.
    + now rewrite dispatchEvent_no_listener.
  - exact H.
Qed.

Lemma wf_run (acts : list (Action A)) st : wf st -> wf (run acts st).
Proof.
  revert st. induction acts as [|a acts IH]; intros st H; [assumption|].
  cbn. apply IH, wf_step, H.
Qed.

Lemma reachable_wf st : reachable st -> wf st.
Proof.
  intros (w & acts & ->). apply wf_run, wf_mount.
Qed.

(** ** One event on a bound hook *)

Lemma wf_bound st (el : HTMLElement) cbs :
  wf st -> Bound st el cbs ->
  exists s, cleanup st = Some s /\ scope_domEl s = el /\ scope_callbacks s = cbs
            /\ listeners st = listeners_of s /\ (sid s < length (cells st))%nat.
Proof.
  unfold wf, Bound. intros H (Hm & Hd & Hc).
  destruct (cleanup st) as [s|].
  - destruct H as (_ & Hd' & Hc' & Hl & Hn). exists s.
    rewrite Hd in Hd'. rewrite Hc in Hc'. repeat split; congruence.
  - destruct H as (_ & [H|[H|H]]); congruence.
Qed.

Lemma lastPosition_deliver st s (k : Key) (e : MouseEvent) :
  (sid s < length (cells st))%nat ->
  lastPosition s (deliver s k e st)
  = Some (mouseEventToCoords (Some (scope_domEl s)) (page (world (deliver s k e st))) e).
Proof.
  intros Hn. unfold lastPosition, deliver, set_lastPosition. cbn.
  now rewrite list_lookup_insert_eq.
Qed.

Lemma steady_step a st s :
  wf st -> cleanup st = Some s -> rebinds a st = false -> is_unmount a = false ->
  cleanup (step a st) = Some s
  /\ ((calls (step a st) = calls st /\ lastPosition s (step a st) = lastPosition s st)
      \/ exists k e, step a st = deliver s k e st).
Proof.
  intros Hwf Hs Hr Hu. pose proof (wf_consistent st Hwf) as Hc. rewrite Hs in Hc.
  assert (Hm : mounted st = true).
  { unfold wf in Hwf. rewrite Hs in Hwf. tauto. }
  destruct a as [v|v| |el ty e|f]; cbn in Hr, Hu |- *; try discriminate.
  - unfold setDomEl. rewrite Hm in Hr |- *. cbn in Hr.
    apply negb_false_iff in Hr. rewrite Hr. auto.
  - unfold setCallbacks. rewrite Hm in Hr |- *. cbn in Hr.
    apply negb_false_iff in Hr. rewrite Hr. auto.
  - rewrite (dispatchEvent_bound st s el ty e Hc).
    destruct (Nat.eqb (scope_domEl s) el); [|auto].
    destruct (key_of_type ty) as [k|]; [|auto].
    split; [exact Hs|]. right. now exists k, e.
  - auto.
Qed.

Lemma unbound_step a st :
  wf st -> cleanup st = None -> rebinds a st = false -> is_unmount a = false ->
  cleanup (step a st) = None /\ calls (step a st) = calls st.
Proof.
  intros Hwf Hs Hr Hu. pose proof (wf_consistent st Hwf) as Hc. rewrite Hs in Hc.
  destruct a as [v|v| |el ty e|f]; cbn in Hr, Hu |- *; try discriminate.
  - unfold setDomEl. destruct (mounted st); [|auto]. cbn in Hr.
    apply negb_false_iff in Hr. rewrite Hr. auto.
  - unfold setCallbacks. destruct (mounted st); [|auto]. cbn in Hr.
    apply negb_false_iff in Hr. rewrite Hr. auto.
  - rewrite dispatchEvent_no_listener by exact Hc. auto.
  - auto.
Qed.

(** ** Sessions: the runs between two changes of the binding *)

Lemma steady_cons a (acts : list (Action A)) st :
  steady (a :: acts) st = true ->
  rebinds a st = false /\ is_unmount a = false /\ steady acts (step a st) = true.
Proof.
  cbn. rewrite !andb_true_iff, !negb_true_iff. tauto.
Qed.

Lemma session_bound (acts : list (Action A)) :
  forall st s,
    wf st -> cleanup st = Some s -> steady acts st = true ->
    cleanup (run acts st) = Some s
    /\ exists new,
         calls (run acts st) = calls st ++ new
         /\ match new with
            | [] => lastPosition s (run acts st) = lastPosition s st
            | c :: _ =>
                delta (argument c)
                = option_map (minus (position (argument c))) (lastPosition s st)
                /\ lastPosition s (run acts st) <> None
            end
         /\ (inert (scope_callbacks s) -> chained (lastPosition s st) new).
Proof.
  induction acts as [|a acts IH]; intros st s Hwf Hs Hst.
  - cbn. split; [exact Hs|]. exists []. rewrite app_nil_r. cbn. auto.
  - apply steady_cons in Hst as (Hr & Hu & Hst).
    destruct (steady_step a st s Hwf Hs Hr Hu) as (Hs1 & Hcase).
    pose proof (wf_step a st Hwf) as Hwf1.
    destruct (IH (step a st) s Hwf1 Hs1 Hst) as (Hs2 & new & Hcalls & Hhead & Hchain).
    cbn [run fold_left]. fold (run acts (step a st)).
    split; [exact Hs2|].
    destruct Hcase as [(Hc & Hl)|(k & e & Hd)].
    + exists new. rewrite Hcalls, Hc. rewrite Hl in Hhead, Hchain. auto.
    + assert (Hn : (sid s < length (cells st))%nat).
      { unfold wf in Hwf. rewrite Hs in Hwf. tauto. }
      pose proof (lastPosition_deliver st s k e Hn) as Hlast. rewrite <- Hd in Hlast.
      set (c0 := {| callee_ref := ref (scope_callbacks s); callee := k;
                    argument := parseMousePosition (Some (scope_domEl s))
                                  (page (world st)) e (lastPosition s st) |}).
      assert (Hc : calls (step a st) = calls st ++ [c0]) by now rewrite Hd.
      exists (c0 :: new). rewrite Hcalls, Hc, <- app_assoc. cbn [app].
      split; [reflexivity|]. split.
      * split; [apply delta_parseMousePosition|].
        destruct new as [|c new']; [rewrite Hhead, Hlast; discriminate|tauto].
      * intros Hin. cbn [chained]. split; [apply delta_parseMousePosition|].
        assert (Hp : page (world (step a st)) = page (world st)).
        { rewrite Hd. apply Hin. }
        rewrite Hlast, Hp in Hchain. now apply Hchain.
Qed.

Lemma session_unbound (acts : list (Action A)) :
  forall st,
    wf st -> cleanup st = None -> steady acts st = true ->
    cleanup (run acts st) = None /\ calls (run acts st) = calls st.
Proof.
  induction acts as [|a acts IH]; intros st Hwf Hs Hst; [now split|].
  apply steady_cons in Hst as (Hr & Hu & Hst).
  destruct (unbound_step a st Hwf Hs Hr Hu) as (Hs1 & Hc).
  destruct (IH (step a st) (wf_step a st Hwf) Hs1 Hst) as (Hs2 & Hc2).
  cbn [run fold_left]. fold (run acts (step a st)). split; congruence.
Qed.

(** The binding a setter creates starts with no last position. *)
Lemma rebinds_fresh a st :
  wf st -> rebinds a st = true ->
  match cleanup (step a st) with
  | Some s => lastPosition s (step a st) = None
  | None => True
  end.
Proof.
  intros Hwf Hr. pose proof (wf_consistent st Hwf) as Hc.
  destruct a as [v|v| |el ty e|f]; cbn in Hr; try discriminate;
    apply andb_true_iff in Hr as (Hm & Hr); apply negb_true_iff in Hr; cbn [step].
  - unfold setDomEl. rewrite Hm, Hr.
    rewrite commit_registers by (destruct st; exact Hc).
    destruct st as [m d c cl ce ls w cs]. cbn.
    destruct c as [cbs|]; [destruct v as [el|]|]; cbn; trivial.
    unfold lastPosition. cbn. now rewrite list_lookup_middle.
  - unfold setCallbacks. rewrite Hm, Hr.
    rewrite commit_registers by (destruct st; exact Hc).
    destruct st as [m d c cl ce ls w cs]. cbn.
    destruct v as [cbs|]; [destruct d as [el|]|]; cbn; trivial.
    unfold lastPosition. cbn. now rewrite list_lookup_middle.
Qed.

Lemma calls_grow (l new : list Call) : l ++ new = l -> new = [].
Proof.
  intros H. apply (f_equal (@length Call)) in H. rewrite length_app in H.
  destruct new; [reflexivity|cbn in H; lia].
Qed.

End Facts.

(** ** The tracker *)

Section Tracker.

Context {A : Type}.

Implicit Types (st : Hook A) (s : Scope A) (cbs : MouseEvents A) (a : Action A).

Lemma run_app (l1 l2 : list (Action A)) st : run (l1 ++ l2) st = run l2 (run l1 st).
Proof.
  unfold run. apply fold_left_app.
Qed.

Lemma steady_app (l1 l2 : list (Action A)) :
  forall st, steady (l1 ++ l2) st = steady l1 st && steady l2 (run l1 st).
Proof.
  induction l1 as [|a l1 IH]; intros st; [reflexivity|].
  cbn. rewrite IH. fold (run l1 (step a st)). now rewrite !andb_assoc.
Qed.

Lemma unmount_unbinds st : wf st -> cleanup (unmount st) = None.
Proof.
  intros Hwf. unfold unmount. destruct (mounted st) eqn:Hm.
  - now rewrite (run_cleanup_clears st (wf_consistent st Hwf)).
  - unfold wf in Hwf. destruct (cleanup st); [|reflexivity].
    destruct Hwf as (Hm' & _). congruence.
Qed.

(** Every binding in force was created by a setter, and the binding has
    stayed as it is since. *)
Lemma last_rebind (w : World A) (acts : list (Action A)) :
  cleanup (run acts (mount w)) <> None ->
  exists acts0 a acts1,
    acts = acts0 ++ a :: acts1
    /\ rebinds a (run acts0 (mount w)) = true
    /\ steady acts1 (run (acts0 ++ [a]) (mount w)) = true.
Proof.
  induction acts as [|a acts IH] using rev_ind; intros Hb.
  - exfalso. apply Hb. reflexivity.
  - rewrite run_app in Hb. cbn in Hb.
    set (st := run acts (mount w)) in *.
    assert (Hwf : wf st) by apply wf_run, wf_mount.
    destruct (rebinds a st) eqn:Hr.
    { exists acts, a, []. auto. }
    destruct (is_unmount a) eqn:Hu.
    { destruct a; try discriminate. exfalso. apply Hb. now apply unmount_unbinds. }
    destruct (cleanup st) as [s|] eqn:Hs.
    + destruct IH as (acts0 & a0 & acts1 & -> & Hr0 & Hst); [subst st; congruence|].
      exists acts0, a0, (acts1 ++ [a]). split; [now rewrite <- app_assoc|].
      split; [exact Hr0|].
      rewrite steady_app, Hst.
      replace (run acts1 (run (acts0 ++ [a0]) (mount w))) with st.
      * cbn [steady andb]. now rewrite Hr, Hu.
      * subst st. rewrite <- run_app, <- app_assoc. reflexivity.
    + exfalso. apply Hb. now apply unbound_step.
Qed.

(** C1 (amended).  Take any history, a setter that creates or replaces
    the binding, and a run during which the binding stays.  The calls made
    during that run start with an absent delta; and when the callbacks of
    the binding leave the page as it is, every later delta is the position
    of its call minus the position of the call before it. *)
Theorem session_deltas (w : World A) (acts0 : list (Action A)) a (acts1 : list (Action A)) :
  let st0 := run acts0 (mount w) in
  let st1 := step a st0 in
  let st2 := run acts1 st1 in
  rebinds a st0 = true ->
  steady acts1 st1 = true ->
  exists new,
    calls st2 = calls st1 ++ new
    /\ first_delta_absent new
    /\ ((forall cbs, callbacks st1 = Some cbs -> inert cbs) -> chained None new).
Proof.
  intros st0 st1 st2 Hr Hst.
  assert (Hwf0 : wf st0) by apply wf_run, wf_mount.
  pose proof (wf_step a st0 Hwf0) as Hwf1. fold st1 in Hwf1.
  pose proof (rebinds_fresh a st0 Hwf0 Hr) as Hfresh. fold st1 in Hfresh.
  destruct (cleanup st1) as [s|] eqn:Hs.
  - destruct (session_bound acts1 st1 s Hwf1 Hs Hst) as (_ & new & Hc & Hhead & Hchain).
    fold st2 in Hc, Hhead. rewrite Hfresh in Hhead, Hchain.
    exists new. split; [exact Hc|]. split.
    + destruct new as [|c new']; [exact I|]. now destruct Hhead.
    + intros Hin. apply Hchain, Hin.
      unfold wf in Hwf1. rewrite Hs in Hwf1. tauto.
  - destruct (session_unbound acts1 st1 Hwf1 Hs Hst) as (_ & Hc). fold st2 in Hc.
    exists []. rewrite app_nil_r. cbn. auto.
Qed.

(** C2.  In every reachable state in which a native event makes the
    tracker hand a sample to a callback, the binding in force was created
    by some setter call of the history and has stayed since; the delta of
    the sample is present exactly when a call was made since that setter
    call.  In particular, when the last step of the history was a setter
    call that changed the element or the callback set, the delta is
    absent, whatever went before. *)
Theorem delta_present_iff_prior_sample (w : World A) (acts : list (Action A))
    (el : HTMLElement) (ty : string) (e : MouseEvent) (c : Call) :
  let st := run acts (mount w) in
  calls (step (Native el ty e) st) = calls st ++ [c] ->
  exists acts0 a acts1,
    acts = acts0 ++ a :: acts1
    /\ rebinds a (run acts0 (mount w)) = true
    /\ steady acts1 (run (acts0 ++ [a]) (mount w)) = true
    /\ (delta (argument c) <> None <-> calls st <> calls (run (acts0 ++ [a]) (mount w)))
    /\ (forall acts' a',
          acts = acts' ++ [a'] -> rebinds a' (run acts' (mount w)) = true ->
          delta (argument c) = None).
Proof.
  intros st Hcall.
  assert (Hwf : wf st) by apply wf_run, wf_mount.
  pose proof (wf_consistent st Hwf) as Hl.
  destruct (cleanup st) as [s|] eqn:Hs; cycle 1.
  { cbn [step] in Hcall. rewrite dispatchEvent_no_listener in Hcall by exact Hl.
    symmetry in Hcall. apply calls_grow in Hcall. discriminate. }
  destruct (last_rebind w acts) as (acts0 & a & acts1 & Hacts & Hr & Hst).
  { fold st. congruence. }
  exists acts0, a, acts1. split; [exact Hacts|]. split; [exact Hr|]. split; [exact Hst|].
  set (st1 := run (acts0 ++ [a]) (mount w)) in *.
  assert (Hst1 : st1 = step a (run acts0 (mount w))) by (subst st1; now rewrite run_app).
  assert (Hrun : st = run acts1 st1).
  { subst st st1. rewrite Hacts, <- run_app, <- app_assoc. reflexivity. }
  assert (Hwf1 : wf st1) by apply wf_run, wf_mount.
  pose proof (rebinds_fresh a _ (wf_run acts0 _ (wf_mount w)) Hr) as Hfresh.
  rewrite <- Hst1 in Hfresh.
  destruct (cleanup st1) as [s1|] eqn:Hs1; cycle 1.
  { destruct (session_unbound acts1 st1 Hwf1 Hs1 Hst) as (Hn & _).
    rewrite <- Hrun in Hn. congruence. }
  destruct (session_bound acts1 st1 s1 Hwf1 Hs1 Hst) as (Hs' & new & Hc & Hhead & _).
  rewrite <- Hrun in Hs', Hc, Hhead.
  assert (s1 = s) by congruence. subst s1. rewrite Hfresh in Hhead.
  assert (Hd : delta (argument c)
               = option_map (minus (position (argument c))) (lastPosition s st)).
  { cbn [step] in Hcall. rewrite (dispatchEvent_bound st s el ty e Hl) in Hcall.
    destruct (Nat.eqb (scope_domEl s) el);
      [destruct (key_of_type ty) as [k|]|];
      try (symmetry in Hcall; apply calls_grow in Hcall; discriminate).
    cbn in Hcall. apply app_inv_head in Hcall. injection Hcall as <-.
    apply delta_parseMousePosition. }
  split.
  - destruct new as [|c' new'].
    + rewrite app_nil_r in Hc. rewrite Hd, Hhead. cbn. split; congruence.
    + destruct Hhead as (_ & Hlast). split.
      * intros _ Heq. rewrite Heq in Hc. symmetry in Hc.
        apply calls_grow in Hc. discriminate.
      * intros _. rewrite Hd. destruct (lastPosition s st); [discriminate|congruence].
  - intros acts' a' Hlast Hr'.
    destruct acts1 as [|x l _] using rev_ind.
    + cbn in Hrun. rewrite Hd, Hrun, Hfresh. reflexivity.
    + exfalso. rewrite Hacts, app_comm_cons, app_assoc in Hlast.
      apply app_inj_tail in Hlast as (Hacts' & ->).
      rewrite steady_app in Hst. apply andb_true_iff in Hst as (_ & Hst).
      apply steady_cons in Hst as (Hno & _).
      replace (run l st1) with (run acts' (mount w)) in Hno; [congruence|].
      subst st1. rewrite <- Hacts', <- run_app, <- app_assoc. reflexivity.
Qed.

(** C6 (amended).  On a reachable hook bound to [el] and [cbs], a native
    event of one of the five types builds the sample from the coordinate
    mapper and the session state (delta = position minus session state,
    absent without one), makes exactly one call, to the member of [cbs]
    that matches the type, with that sample, and then stores what the
    mapper returns for the same event on the page as the callback left it.
    When the callback left the page as it was, that is the position of the
    sample. *)
Theorem event_delivery st (el : HTMLElement) cbs (ty : string) (k : Key) (e : MouseEvent) :
  reachable st -> Bound st el cbs -> key_of_type ty = Some k ->
  exists s,
    cleanup st = Some s /\ scope_domEl s = el /\ scope_callbacks s = cbs
    /\ let sample := parseMousePosition (Some el) (page (world st)) e (lastPosition s st) in
       let st' := step (Native el ty e) st in
       position sample = mouseEventToCoords (Some el) (page (world st)) e
       /\ delta sample = option_map (minus (position sample)) (lastPosition s st)
       /\ calls st' = calls st ++ [ {| callee_ref := ref cbs; callee := k; argument := sample |} ]
       /\ world st' = member k cbs sample (world st)
       /\ lastPosition s st' = Some (mouseEventToCoords (Some el) (page (world st')) e)
       /\ (page (world st') = page (world st) -> stores_delivered_position st el ty e).
Proof.
  intros Hre Hb Hk. pose proof (reachable_wf st Hre) as Hwf.
  destruct (wf_bound st el cbs Hwf Hb) as (s & Hs & Hel & Hcbs & Hl & Hn).
  exists s. split; [exact Hs|]. split; [exact Hel|]. split; [exact Hcbs|].
  intros sample st'.
  assert (Hst' : st' = deliver s k e st).
  { subst st'. cbn [step]. rewrite (dispatchEvent_bound st s el ty e Hl).
    now rewrite Hel, Nat.eqb_refl, Hk. }
  pose proof (lastPosition_deliver st s k e Hn) as Hlast.
  rewrite <- Hst', Hel in Hlast.
  split; [reflexivity|]. split; [apply delta_parseMousePosition|].
  split; [rewrite Hst'; subst sample; cbn; now rewrite Hel, Hcbs|].
  split; [rewrite Hst'; subst sample; cbn; now rewrite Hel, Hcbs|].
  split; [exact Hlast|].
  intros Hp s' Hs'. assert (s' = s) by congruence. subst s'.
  fold st'. now rewrite Hlast, Hp.
Qed.

Lemma unbound_no_cleanup st : wf st -> Unbound st -> cleanup st = None.
Proof.
  unfold wf, Unbound. destruct (cleanup st) as [s|]; [|reflexivity].
  intros (_ & Hd & Hc & _) [H|H]; congruence.
Qed.

(** C7.  A reachable hook that lacks the element or the callback set has
    no clean-up pending and no listener on any element; a native event,
    and any sequence of native events, leaves the whole state as it is: no
    callback runs, nothing is recorded, and the step is an ordinary
    result, not a failure. *)
Theorem unbound_is_silent st :
  reachable st -> Unbound st ->
  cleanup st = None
  /\ listeners st = []
  /\ (forall (el : HTMLElement) (ty : string) (e : MouseEvent), step (Native el ty e) st = st)
  /\ (forall evs : list (HTMLElement * string * MouseEvent),
        run (map (fun ev => Native (fst (fst ev)) (snd (fst ev)) (snd ev)) evs) st = st).
Proof.
  intros Hre Hu. pose proof (reachable_wf st Hre) as Hwf.
  pose proof (unbound_no_cleanup st Hwf Hu) as Hs.
  pose proof (wf_consistent st Hwf) as Hl. rewrite Hs in Hl.
  assert (Hstep : forall el ty e, step (Native el ty e) st = st).
  { intros el ty e. cbn [step]. now apply dispatchEvent_no_listener. }
  repeat split; trivial.
  induction evs as [|ev evs IH]; [reflexivity|].
  cbn [map run fold_left]. rewrite Hstep. exact IH.
Qed.

(** C8.  In every reachable state: (1) a hook bound to [el] has exactly
    the five listeners of the effect's last run on its listener lists, all
    on [el], one for each of the five event types; (2) a setter call that
    changes the binding first runs the clean-up, after which no listener
    is left, and only then the effect; (3) a native event causes at most
    one call; (4) every listener belongs to the run of the effect whose
    clean-up is pending, and a hook that is unmounted or unbound has no
    listener. *)
Theorem listeners_follow_binding st :
  reachable st ->
  (forall (el : HTMLElement) cbs,
     Bound st el cbs ->
     exists s,
       cleanup st = Some s /\ scope_domEl s = el /\ scope_callbacks s = cbs
       /\ listeners st = listeners_of s
       /\ length (listeners st) = 5%nat
       /\ forall (ty : string) (k : Key),
            key_of_type ty = Some k ->
            List.filter (listens el ty) (listeners st)
            = [ {| target := el; type := ty; scope := s; fn := k |} ])
  /\ (forall a,
        rebinds a st = true ->
        listeners (run_cleanup (assign a st)) = []
        /\ step a st = effect (run_cleanup (assign a st)))
  /\ (forall (el : HTMLElement) (ty : string) (e : MouseEvent),
        (length (calls (step (Native el ty e) st)) <= length (calls st) + 1)%nat)
  /\ (forall l, In l (listeners st) ->
        cleanup st = Some (scope l) /\ target l = scope_domEl (scope l))
  /\ (mounted st = false \/ Unbound st -> listeners st = []).
Proof.
  intros Hre. pose proof (reachable_wf st Hre) as Hwf.
  pose proof (wf_consistent st Hwf) as Hl.
  split; [|split; [|split; [|split]]].
  - intros el cbs Hb.
    destruct (wf_bound st el cbs Hwf Hb) as (s & Hs & Hel & Hcbs & Hls & _).
    exists s. repeat split; trivial.
    + now rewrite Hls.
    + intros ty k Hk. rewrite Hls, filter_listeners_of, Hel, Nat.eqb_refl, Hk.
      reflexivity.
  - intros a Hr.
    assert (Hl' : match cleanup (assign a st) with
                  | Some s => listeners (assign a st) = listeners_of s
                  | None => listeners (assign a st) = []
                  end) by (destruct a; exact Hl).
    split; [now rewrite (run_cleanup_clears _ Hl')|].
    destruct a as [v|v| |el ty e|f]; cbn in Hr; try discriminate;
      apply andb_true_iff in Hr as (Hm & Hr); apply negb_true_iff in Hr; cbn [step assign].
    + unfold setDomEl. now rewrite Hm, Hr.
    + unfold setCallbacks. now rewrite Hm, Hr.
  - intros el ty e. cbn [step].
    destruct (cleanup st) as [s|].
    + rewrite (dispatchEvent_bound st s el ty e Hl).
      destruct (Nat.eqb (scope_domEl s) el); [|lia].
      destruct (key_of_type ty); [|lia].
      cbn. rewrite length_app. cbn. lia.
    + rewrite dispatchEvent_no_listener by exact Hl. lia.
  - intros l Hin. destruct (cleanup st) as [s|].
    + rewrite Hl in Hin. cbn in Hin.
      destruct Hin as [<-|[<-|[<-|[<-|[<-|[]]]]]]; now split.
    + rewrite Hl in Hin. destruct Hin.
  - intros Hu. destruct (cleanup st) as [s|] eqn:Hs; [|exact Hl].
    exfalso. unfold wf in Hwf. rewrite Hs in Hwf.
    destruct Hwf as (Hm & Hd & Hc & _).
    destruct Hu as [Hu|[Hu|Hu]]; congruence.
Qed.

Lemma mouseEventToCoords_resolved (left top : number) (el : HTMLElement) (p : Page)
    (e : MouseEvent) :
  resolves_to left top el p ->
  mouseEventToCoords (Some el) p e
  = {| x := clientX e - left + 0; y := clientY e - top + 0 |}.
Proof.
  intros (Ho & Hx & Hy). unfold mouseEventToCoords. now rewrite Ho, Hx, Hy.
Qed.

(** C9.  The scenario.  Right after a setter call has bound the hook to
    an element that resolves to offset (left 50, top 100) on an unscrolled
    page, an event of one of the five types at viewport (60, 110) is
    handed over with position (10, 10) and no delta; with the page still
    so after that callback, the next event, at viewport (70, 130), is
    handed over with position (20, 30) and delta (10, 20). *)
Theorem scenario_first_two_events st0 a (el : HTMLElement) cbs
    (ty1 ty2 : string) (k1 k2 : Key) :
  let st := step a st0 in
  reachable st0 -> rebinds a st0 = true -> Bound st el cbs ->
  key_of_type ty1 = Some k1 -> key_of_type ty2 = Some k2 ->
  resolves_to 50 100 el (page (world st)) ->
  (forall arg, resolves_to 50 100 el (page (member k1 cbs arg (world st)))) ->
  calls (run [Native el ty1 (at_ 60 110); Native el ty2 (at_ 70 130)] st)
  = calls st
    ++ [ {| callee_ref := ref cbs; callee := k1;
            argument := {| position := {| x := 10; y := 10 |}; delta := None |} |};
         {| callee_ref := ref cbs; callee := k2;
            argument := {| position := {| x := 20; y := 30 |};
                           delta := Some {| x := 10; y := 20 |} |} |} ].
Proof.
  intros st Hre Hr Hb Hk1 Hk2 Hp Hp'.
  pose proof (reachable_wf st0 Hre) as Hwf0.
  pose proof (wf_step a st0 Hwf0) as Hwf. fold st in Hwf.
  pose proof (rebinds_fresh a st0 Hwf0 Hr) as Hfresh. fold st in Hfresh.
  destruct (wf_bound st el cbs Hwf Hb) as (s & Hs & Hel & Hcbs & Hl & Hn).
  rewrite Hs in Hfresh.
  cbn [run fold_left step].
  rewrite (dispatchEvent_bound st s el ty1 _ Hl), Hel, Nat.eqb_refl, Hk1.
  set (st1 := deliver s k1 (at_ 60 110) st).
  assert (Hl1 : listeners st1 = listeners_of s) by exact Hl.
  rewrite (dispatchEvent_bound st1 s el ty2 _ Hl1), Hel, Nat.eqb_refl, Hk2.
  assert (Hlast : lastPosition s st1 = Some {| x := 10; y := 10 |}).
  { subst st1. rewrite (lastPosition_deliver st s k1 _ Hn), Hel.
    rewrite (mouseEventToCoords_resolved 50 100).
    - reflexivity.
    - cbn. rewrite Hcbs. apply Hp'. }
  assert (Hp1 : resolves_to 50 100 el (page (world st1))).
  { subst st1. cbn. rewrite Hcbs. apply Hp'. }
  unfold deliver at 1. cbn [calls set_lastPosition with_cells invoke with_calls world with_world].
  rewrite Hlast, Hel, Hcbs.
  unfold parseMousePosition. rewrite (mouseEventToCoords_resolved 50 100 el _ _ Hp1).
  subst st1. unfold deliver.
  cbn [calls set_lastPosition with_cells invoke with_calls world with_world].
  rewrite Hfresh, Hel, Hcbs.
  unfold parseMousePosition. rewrite (mouseEventToCoords_resolved 50 100 el _ _ Hp).
  rewrite <- app_assoc. reflexivity.
Qed.

End Tracker.

(** ** The properties on concrete runs *)

Lemma idle_inert (r : nat) : inert (idle r).
Proof.
  intros k arg w. destruct k; reflexivity.
Qed.

Lemma reachable_element_given : reachable element_given.
Proof.
  exists world_50_100, [SetDomEl (Some 7%nat)]. reflexivity.
Qed.

Lemma reachable_bound_idle : reachable bound_idle.
Proof.
  exists world_50_100, [SetDomEl (Some 7%nat); SetCallbacks (Some (idle 1))]. reflexivity.
Qed.

Lemma reachable_bound_scrolling : reachable bound_scrolling.
Proof.
  exists world_50_100, [SetDomEl (Some 7%nat); SetCallbacks (Some (scrolling 1))]. reflexivity.
Qed.

Lemma resolves_page_50_100 : resolves_to 50 100 7%nat page_50_100.
Proof.
  repeat split.
Qed.

(** C1, as it is worded, fails.  With a [onMouseMove] that scrolls the
    window by 5, the first move is handed over at position (10, 10) and
    the second at (25, 10) with delta (10, 0), which is not (25, 10) minus
    (10, 10): the listener stored (15, 10), recomputed after the scroll. *)
Lemma session_deltas_counterexample :
  rebinds (SetCallbacks (Some (scrolling 1))) element_given = true
  /\ steady two_moves bound_scrolling = true
  /\ calls (run two_moves bound_scrolling)
     = calls bound_scrolling
       ++ [ {| callee_ref := 1; callee := OnMouseMove;
               argument := {| position := {| x := 10; y := 10 |}; delta := None |} |};
            {| callee_ref := 1; callee := OnMouseMove;
               argument := {| position := {| x := 25; y := 10 |};
                              delta := Some {| x := 10; y := 0 |} |} |} ]
  /\ ~ (exists new,
          calls (run two_moves bound_scrolling) = calls bound_scrolling ++ new
          /\ chained None new).
Proof.
  split; [reflexivity|]. split; [reflexivity|]. split; [reflexivity|].
  intros (new & Hc & Hch).
  vm_compute in Hc. subst new.
  destruct Hch as (_ & Hd & _). vm_compute in Hd. discriminate Hd.
Qed.

Lemma session_deltas_witness :
  rebinds (SetCallbacks (Some (idle 1))) element_given = true
  /\ steady two_moves bound_idle = true
  /\ exists new,
       calls (run two_moves bound_idle) = calls bound_idle ++ new
       /\ first_delta_absent new
       /\ chained None new.
Proof.
  split; [reflexivity|]. split; [reflexivity|].
  destruct (session_deltas world_50_100 [SetDomEl (Some 7%nat)] (SetCallbacks (Some (idle 1)))
              two_moves eq_refl eq_refl) as (new & Hc & Hf & Hch).
  exists new. split; [exact Hc|]. split; [exact Hf|].
  apply Hch. intros cbs H. injection H as <-. apply idle_inert.
Defined.

Lemma delta_present_iff_prior_sample_witness :
  let acts := [ SetDomEl (Some 7%nat); SetCallbacks (Some (idle 1));
                Native 7%nat "mousemove" (at_ 60 110) ] in
  let c := {| callee_ref := 1; callee := OnMouseUp;
              argument := {| position := {| x := 20; y := 30 |};
                             delta := Some {| x := 10; y := 20 |} |} |} in
  let st := run acts (mount world_50_100) in
  calls (step (Native 7%nat "mouseup" (at_ 70 130)) st) = calls st ++ [c]
  /\ exists acts0 a acts1,
       acts = acts0 ++ a :: acts1
       /\ rebinds a (run acts0 (mount world_50_100)) = true
       /\ steady acts1 (run (acts0 ++ [a]) (mount world_50_100)) = true
       /\ (delta (argument c) <> None
           <-> calls st <> calls (run (acts0 ++ [a]) (mount world_50_100)))
       /\ (forall acts' a',
             acts = acts' ++ [a'] -> rebinds a' (run acts' (mount world_50_100)) = true ->
             delta (argument c) = None).
Proof.
  intros acts c st. split; [vm_compute; reflexivity|].
  apply (delta_present_iff_prior_sample world_50_100 acts 7%nat "mouseup" (at_ 70 130) c).
  vm_compute. reflexivity.
Defined.

(** C6, as it is worded, fails.  On the hook whose [onMouseMove] scrolls
    the window by 5, the move at viewport (60, 110) is handed over at
    position (10, 10), and the listener then stores (15, 10). *)
Lemma stores_delivered_position_counterexample :
  reachable bound_scrolling
  /\ Bound bound_scrolling 7%nat (scrolling 1)
  /\ key_of_type "mousemove" = Some OnMouseMove
  /\ calls (step (Native 7%nat "mousemove" (at_ 60 110)) bound_scrolling)
     = [ {| callee_ref := 1; callee := OnMouseMove;
            argument := {| position := {| x := 10; y := 10 |}; delta := None |} |} ]
  /\ cells (step (Native 7%nat "mousemove" (at_ 60 110)) bound_scrolling)
     = [ Some {| x := 15; y := 10 |} ]
  /\ ~ stores_delivered_position bound_scrolling 7%nat "mousemove" (at_ 60 110).
Proof.
  split; [exact reachable_bound_scrolling|].
  split; [repeat split|]. split; [reflexivity|]. split; [reflexivity|].
  split; [reflexivity|].
  intros H.
  specialize (H {| sid := 0; scope_domEl := 7%nat; scope_callbacks := scrolling 1 |} eq_refl).
  vm_compute in H. discriminate H.
Qed.

Lemma event_delivery_witness :
  reachable bound_idle
  /\ Bound bound_idle 7%nat (idle 1)
  /\ key_of_type "mousedown" = Some OnMouseDown
  /\ exists s,
       cleanup bound_idle = Some s /\ scope_domEl s = 7%nat /\ scope_callbacks s = idle 1
       /\ let sample := parseMousePosition (Some 7%nat) (page (world bound_idle)) (at_ 60 110)
                          (lastPosition s bound_idle) in
          let st' := step (Native 7%nat "mousedown" (at_ 60 110)) bound_idle in
          position sample = mouseEventToCoords (Some 7%nat) (page (world bound_idle)) (at_ 60 110)
          /\ delta sample = option_map (minus (position sample)) (lastPosition s bound_idle)
          /\ calls st'
             = calls bound_idle
               ++ [ {| callee_ref := ref (idle 1); callee := OnMouseDown; argument := sample |} ]
          /\ world st' = member OnMouseDown (idle 1) sample (world bound_idle)
          /\ lastPosition s st'
             = Some (mouseEventToCoords (Some 7%nat) (page (world st')) (at_ 60 110))
          /\ (page (world st') = page (world bound_idle) ->
              stores_delivered_position bound_idle 7%nat "mousedown" (at_ 60 110)).
Proof.
  split; [exact reachable_bound_idle|].
  split; [repeat split|]. split; [reflexivity|].
  apply (event_delivery bound_idle 7%nat (idle 1) "mousedown" OnMouseDown (at_ 60 110)).
  - exact reachable_bound_idle.
  - repeat split.
  - reflexivity.
Defined.

Lemma unbound_is_silent_witness :
  reachable element_given
  /\ Unbound element_given
  /\ cleanup element_given = None
  /\ listeners element_given = []
  /\ (forall (el : HTMLElement) (ty : string) (e : MouseEvent),
        step (Native el ty e) element_given = element_given)
  /\ (forall evs : list (HTMLElement * string * MouseEvent),
        run (map (fun ev => Native (fst (fst ev)) (snd (fst ev)) (snd ev)) evs) element_given
        = element_given).
Proof.
  split; [exact reachable_element_given|].
  split; [right; reflexivity|].
  apply (unbound_is_silent element_given).
  - exact reachable_element_given.
  - right. reflexivity.
Defined.

Lemma listeners_follow_binding_witness :
  reachable bound_idle
  /\ length (listeners bound_idle) = 5%nat
  /\ (forall (el : HTMLElement) (ty : string) (e : MouseEvent),
        (length (calls (step (Native el ty e) bound_idle)) <= length (calls bound_idle) + 1)%nat)
  /\ (forall l, In l (listeners bound_idle) ->
        cleanup bound_idle = Some (scope l) /\ target l = scope_domEl (scope l)).
Proof.
  split; [exact reachable_bound_idle|].
  destruct (listeners_follow_binding bound_idle reachable_bound_idle)
    as (_ & _ & H3 & H4 & _).
  split; [reflexivity|]. split; [exact H3|exact H4].
Defined.

Lemma scenario_first_two_events_witness :
  reachable element_given
  /\ rebinds (SetCallbacks (Some (idle 1))) element_given = true
  /\ Bound bound_idle 7%nat (idle 1)
  /\ resolves_to 50 100 7%nat (page (world bound_idle))
  /\ calls (run [ Native 7%nat "mousemove" (at_ 60 110); Native 7%nat "mouseup" (at_ 70 130) ]
              bound_idle)
     = calls bound_idle
       ++ [ {| callee_ref := 1; callee := OnMouseMove;
               argument := {| position := {| x := 10; y := 10 |}; delta := None |} |};
            {| callee_ref := 1; callee := OnMouseUp;
               argument := {| position := {| x := 20; y := 30 |};
                              delta := Some {| x := 10; y := 20 |} |} |} ].
Proof.
  split; [exact reachable_element_given|]. split; [reflexivity|].
  split; [repeat split|]. split; [exact resolves_page_50_100|].
  apply (scenario_first_two_events element_given (SetCallbacks (Some (idle 1))) 7%nat (idle 1)
           "mousemove" "mouseup" OnMouseMove OnMouseUp).
  - exact reachable_element_given.
  - reflexivity.
  - repeat split.
  - reflexivity.
  - reflexivity.
  - exact resolves_page_50_100.
  - intros arg. exact resolves_page_50_100.
Defined.

(** * Further properties of the hook *)

(** ** The resolver and the mapper on ordinary pages *)

Lemma Math_round_wd (a b : number) : a == b -> Math_round a = Math_round b.
Proof.
  intros H. unfold Math_round. f_equal. apply Qfloor_comp. now rewrite H.
Qed.


Lemma scroll_top_standards (p : Page) :
  standards_mode p ->
  (pageYOffset (window p) || scrollTop (documentElement p) || scrollTop (body p))%js
  == pageYOffset (window p).
Proof.
  intros (Ht & _ & Hb & _). rewrite jsor_chain.
  destruct (truthy (pageYOffset (window p))) eqn:Hw; [reflexivity|].
  apply truthy_false in Hw.
  assert (Hd : truthy (scrollTop (documentElement p)) = false).
  { apply truthy_false. now rewrite Ht. }
  rewrite Hd. now rewrite Hb, Hw.
Qed.

Lemma scroll_left_standards (p : Page) :
  standards_mode p ->
  (pageXOffset (window p) || scrollLeft (documentElement p) || scrollLeft (body p))%js
  == pageXOffset (window p).
Proof.
  intros (_ & Hl & _ & Hb). rewrite jsor_chain.
  destruct (truthy (pageXOffset (window p))) eqn:Hw; [reflexivity|].
  apply truthy_false in Hw.
  assert (Hd : truthy (scrollLeft (documentElement p)) = false).
  { apply truthy_false. now rewrite Hl. }
  rewrite Hd. now rewrite Hb, Hw.
Qed.





Lemma offset_of_scrolled_page (p p' : Page) (el : HTMLElement) (dx dy : number) :
  standards_mode p -> standards_mode p' -> same_client_edge p p' ->
  pageXOffset (window p') == pageXOffset (window p) + dx ->
  pageYOffset (window p') == pageYOffset (window p) + dy ->
  DOMRect.left (getBoundingClientRect p' el) == DOMRect.left (getBoundingClientRect p el) - dx ->
  DOMRect.top (getBoundingClientRect p' el) == DOMRect.top (getBoundingClientRect p el) - dy ->
  getOffset (Some el) p' = getOffset (Some el) p.
Proof.
  intros Hs Hs' (Hc1 & Hc2 & Hc3 & Hc4) Hx Hy Hl Ht.
  pose proof (scroll_left_standards p Hs) as Hsl.
  pose proof (scroll_top_standards p Hs) as Hst.
  pose proof (scroll_left_standards p' Hs') as Hsl'.
  pose proof (scroll_top_standards p' Hs') as Hst'.
  unfold getOffset. cbv zeta. rewrite Hc1, Hc2, Hc3, Hc4.
  f_equal; apply Math_round_wd.
  - rewrite Hst', Hst, Ht, Hy. ring.
  - rewrite Hsl', Hsl, Hl, Hx. ring.
Qed.

(** X5.  The resolved offset is relative to the document: between two
    pages in standards mode that differ by a scroll of (dx, dy) (the
    window offsets grow by it, the box moves the other way in the
    viewport, the client edges stay), the resolver returns the same
    offset. *)
Theorem getOffset_scroll_invariant (p p' : Page) (el : HTMLElement) (dx dy : number) :
  standards_mode p -> standards_mode p' -> same_client_edge p p' ->
  pageXOffset (window p') == pageXOffset (window p) + dx ->
  pageYOffset (window p') == pageYOffset (window p) + dy ->
  DOMRect.left (getBoundingClientRect p' el) == DOMRect.left (getBoundingClientRect p el) - dx ->
  DOMRect.top (getBoundingClientRect p' el) == DOMRect.top (getBoundingClientRect p el) - dy ->
  getOffset (Some el) p' = getOffset (Some el) p.
Proof.
  apply offset_of_scrolled_page.
Qed.


(** ** The tracker: what it ignores, and what the deltas add up to *)

Section Further.

Context {A : Type}.

Implicit Types (st : Hook A) (s : Scope A) (cbs : MouseEvents A) (a : Action A).


Lemma unmounted_step a st :
  wf st -> mounted st = false ->
  wf (step a st) /\ mounted (step a st) = false /\ calls (step a st) = calls st
  /\ listeners (step a st) = [].
Proof.
  intros Hwf Hm.
  assert (Hs : cleanup st = None).
  { unfold wf in Hwf. destruct (cleanup st); [|reflexivity].
    destruct Hwf as (Hm' & _). congruence. }
  pose proof (wf_consistent st Hwf) as Hl. rewrite Hs in Hl.
  split; [now apply wf_step|].
  destruct a as [v|v| |el ty e|f]; cbn [step].
  - unfold setDomEl. rewrite Hm. auto.
  - unfold setCallbacks. rewrite Hm. auto.
  - unfold unmount. rewrite Hm. auto.
  - rewrite dispatchEvent_no_listener by exact Hl. auto.
  - cbn. auto.
Qed.

Lemma unmounted_run (acts : list (Action A)) :
  forall st,
    wf st -> mounted st = false -> listeners st = [] ->
    mounted (run acts st) = false /\ calls (run acts st) = calls st
    /\ listeners (run acts st) = [].
Proof.
  induction acts as [|a acts IH]; intros st Hwf Hm Hl; [auto|].
  destruct (unmounted_step a st Hwf Hm) as (Hwf1 & Hm1 & Hc1 & Hl1).
  destruct (IH (step a st) Hwf1 Hm1 Hl1) as (Hm2 & Hc2 & Hl2).
  cbn [run fold_left]. fold (run acts (step a st)). repeat split; congruence.
Qed.

(** X2.  Once the component is unmounted the clean-up has removed every
    listener, and whatever happens afterwards (native events on any
    element, setter calls, changes of the page) no callback is called
    again and no listener comes back. *)
Theorem unmounted_is_silent st (acts : list (Action A)) :
  reachable st ->
  calls (run (Unmount :: acts) st) = calls st
  /\ listeners (run (Unmount :: acts) st) = []
  /\ mounted (run (Unmount :: acts) st) = false.
Proof.
  intros Hre. pose proof (reachable_wf st Hre) as Hwf.
  cbn [run fold_left step]. fold (run acts (unmount st)).
  assert (H : mounted (unmount st) = false /\ calls (unmount st) = calls st
              /\ listeners (unmount st) = []).
  { unfold unmount. destruct (mounted st) eqn:Hm.
    - rewrite (run_cleanup_clears st (wf_consistent st Hwf)). cbn. auto.
    - repeat split; trivial.
      pose proof (wf_consistent st Hwf) as Hl. unfold wf in Hwf.
      destruct (cleanup st); [|exact Hl]. destruct Hwf as (Hm' & _). congruence. }
  destruct H as (Hm & Hc & Hl).
  pose proof (wf_step Unmount st Hwf) as Hwf1. cbn [step] in Hwf1.
  destruct (unmounted_run acts (unmount st) Hwf1 Hm Hl) as (Hm2 & Hc2 & Hl2).
  repeat split; congruence.
Qed.






End Further.

(** ** The further properties on concrete pages and runs *)

Lemma standards_page_50_100 : standards_mode page_50_100.
Proof.
  repeat split.
Qed.

Lemma standards_page_scrolled : standards_mode (scrollBy 5 3 page_50_100).
Proof.
  repeat split.
Qed.


Lemma unmounted_is_silent_witness :
  calls (run (Unmount :: two_moves) bound_idle) = calls bound_idle
  /\ listeners (run (Unmount :: two_moves) bound_idle) = []
  /\ mounted (run (Unmount :: two_moves) bound_idle) = false.
Proof.
  apply (unmounted_is_silent bound_idle two_moves reachable_bound_idle).
Defined.



Lemma getOffset_scroll_invariant_witness :
  getOffset (Some 7%nat) (scrollBy 5 3 page_50_100) = getOffset (Some 7%nat) page_50_100.
Proof.
  apply (getOffset_scroll_invariant page_50_100 (scrollBy 5 3 page_50_100) 7%nat 5 3);
    repeat split.
Defined.




